(** * wtd_api: the WorldTradingData client, its query-string builder and
      its fetch-and-decode routine.

    Shallow embedding of [src/api.py] and [src/api_paths.py].

    - Python values reaching the client are atoms ([None], [bool], [int],
      [str]) or lists of atoms.  Floats and nested containers are left out:
      their [str()] needs [repr], which the client never relies on.
    - A [WTDApi] instance is its attribute dictionary, a [gmap] from
      attribute names to values; [self.api_key = v] is an insertion,
      reading [self.api_key] is a lookup.
    - Methods are computations in a state-and-error monad whose state holds
      the instance and the log of calls made to the two collaborators,
      [requests.get] and [json.loads], which are parameters of the model. *)

From Stdlib Require Import ZArith Ascii String List DecimalString Lia.
From stdpp Require Import base option strings gmap.

Local Open Scope string_scope.
Local Open Scope list_scope.

(** ** Python values *)

Inductive atom : Type :=
| ANone
| ABool (b : bool)
| AInt (z : Z)
| AStr (s : string).

Inductive pyval : Type :=
| Atom (a : atom)
| PList (l : list atom).

Abbreviation PNone := (Atom ANone).
Abbreviation PStr s := (Atom (AStr s)).
Abbreviation PInt z := (Atom (AInt z)).
Abbreviation PBool b := (Atom (ABool b)).

(** [str(x)] on an atom. *)
Definition str_atom (a : atom) : string :=
  match a with
  | ANone => "None"
  | ABool true => "True"
  | ABool false => "False"
  | AInt z => NilZero.string_of_int (Z.to_int z)
  | AStr s => s
  end.

(** [sep.join(parts)]. *)
Fixpoint join (sep : string) (parts : list string) : string :=
  match parts with
  | [] => ""
  | [p] => p
  | p :: rest => p +:+ sep +:+ join sep rest
  end.

(** [value == None]. *)
Definition eq_None (value : pyval) : bool :=
  match value with
  | Atom ANone => true
  | _ => false
  end.

(** Truth value of an object, as used by [not api_key]. *)
Definition truthy (value : pyval) : bool :=
  match value with
  | Atom ANone => false
  | Atom (ABool b) => b
  | Atom (AInt z) => negb (Z.eqb z 0)
  | Atom (AStr s) => negb (String.eqb s "")
  | PList l => match l with [] => false | _ => true end
  end.

(** ** Exceptions and results *)

Inductive exn : Type :=
| APIKeyNotSet (msg : string)
| APIAccessError (msg : string)
| TypeError
| AttributeError (name : string)
| KeyError (key : string)
| Foreign (name : string).   (* raised inside a collaborator *)

Inductive result (A : Type) : Type :=
| Ok (a : A)
| Raise (e : exn).
Arguments Ok {A} a.
Arguments Raise {A} e.

(** ** Endpoint registry ([src/api_paths.py]) *)

Definition API : list (string * string) :=
  [ ("stock", "https://www.worldtradingdata.com/api/v1/stock");
    ("mutual_fund", "https://www.worldtradingdata.com/api/v1/mutualfund");
    ("intraday", "https://www.worldtradingdata.com/api/v1/intraday");
    ("history", "https://www.worldtradingdata.com/api/v1/history");
    ("history_msd", "https://www.worldtradingdata.com/api/v1/history_multi_single_day");
    ("forex", "https://www.worldtradingdata.com/api/v1/forex");
    ("forex_history", "https://www.worldtradingdata.com/api/v1/forex_history");
    ("forex_single_day", "https://www.worldtradingdata.com/api/v1/forex_single_day");
    ("search", "https://www.worldtradingdata.com/api/v1/stock_search") ].

(** [d[key]] on a dict literal: the first binding of [key], else [KeyError]. *)
Fixpoint subscript (d : list (string * string)) (key : string) : result string :=
  match d with
  | [] => Raise (KeyError key)
  | (k, v) :: rest => if String.eqb k key then Ok v else subscript rest key
  end.

(** ** Collaborators and the world *)

Record response : Type := mkResponse { status_code : Z; text : string }.

Inductive json : Type :=
| JNull
| JBool (b : bool)
| JNum (z : Z)
| JStr (s : string)
| JArr (items : list json)
| JObj (members : list (string * json)).

Inductive event : Type :=
| EvGet (url : string)
| EvLoads (body : string).

Record world : Type := mkWorld {
  self : gmap string pyval;
  trace : list event
}.

Definition M (A : Type) : Type := world -> result A * world.

Definition ret {A} (a : A) : M A := fun w => (Ok a, w).
Definition raise {A} (e : exn) : M A := fun w => (Raise e, w).
Definition bind {A B} (m : M A) (k : A -> M B) : M B :=
  fun w => match m w with
           | (Ok a, w') => k a w'
           | (Raise e, w') => (Raise e, w')
           end.
Definition lift {A} (r : result A) : M A := fun w => (r, w).

#[global] Instance M_ret : MRet M := @ret.
#[global] Instance M_bind : MBind M := fun A B k m => bind m k.

(** [self.name] *)
Definition getattr (name : string) : M pyval :=
  fun w => match self w !! name with
           | Some v => (Ok v, w)
           | None => (Raise (AttributeError name), w)
           end.

(** [self.name = v] *)
Definition setattr (name : string) (v : pyval) : M unit :=
  fun w => (Ok tt, mkWorld (<[name := v]> (self w)) (trace w)).

Definition log (e : event) : M unit :=
  fun w => (Ok tt, mkWorld (self w) (trace w ++ [e])).

(** [SUCCESS = 200] *)
Definition SUCCESS : Z := 200.

(** ** The client ([src/api.py]) *)

Definition nl : string := String (ascii_of_nat 10) "".
Definition indent : string := "                ".

Definition key_not_set_message : string :=
  nl +:+ indent +:+ "API Key not set for this client." +:+ nl +:+ nl
     +:+ indent +:+ "Obtain one from https://worldtradingdata.com/" +:+ nl
     +:+ indent.

(** What one iteration of the builder's loop appends for a value that is
    not [None]: [str(key) + "="] followed by the serialised value and ["&"]. *)
Definition fragment (key : string) (value : pyval) : string :=
  let key := key +:+ "=" in
  match value with
  | PList l => key +:+ (join "," (map str_atom l) +:+ "&")
  | Atom a => key +:+ (str_atom a +:+ "&")
  end.

(** The [for key, value in kwargs.items()] loop, threading [misc]. *)
Fixpoint build_loop (misc : string) (items : list (string * pyval)) : string :=
  match items with
  | [] => misc
  | (key, value) :: rest =>
      if eq_None value then build_loop misc rest
      else build_loop (misc +:+ fragment key value) rest
  end.

(** [str + x]: defined on strings only. *)
Definition str_add (s : string) (x : pyval) : M string :=
  match x with
  | Atom (AStr t) => ret (s +:+ t)
  | _ => raise TypeError
  end.

Definition __init__ (api_key : option pyval) : M unit :=
  let api_key := default PNone api_key in
  if negb (truthy api_key) then raise (APIKeyNotSet key_not_set_message)
  else setattr "api_key" api_key.

Definition set_api_key (api_key : pyval) : M unit :=
  setattr "api_key" api_key.

Definition _build_misc_string (kwargs : list (string * pyval)) : M string :=
  let misc := build_loop "?" kwargs in
  api_key ← getattr "api_key";
  tail ← str_add "api_token=" api_key;
  ret (misc +:+ tail).

(** [WTDApi(api_key)]: [__init__] run on a fresh instance. *)
Definition WTDApi (api_key : option pyval) (tr : list event) : result unit * world :=
  __init__ api_key (mkWorld ∅ tr).

Section Collaborators.

(** [requests.get] and [json.loads], black boxes. *)
Variable requests_get : string -> result response.
Variable json_loads : string -> result json.

Definition _get_api_response (url : string) : M json :=
  _ ← log (EvGet url);
  resp ← lift (requests_get url);
  if negb (Z.eqb (status_code resp) SUCCESS)
  then raise (APIAccessError ("Error: " +:+ text resp))
  else
    _ ← log (EvLoads (text resp));
    lift (json_loads (text resp)).

(** [API[name] + self._build_misc_string(...)] *)
Definition make_url (name : string) (kwargs : list (string * pyval)) : M string :=
  base ← lift (subscript API name);
  query ← _build_misc_string kwargs;
  ret (base +:+ query).

Definition stocks (symbols : pyval) (sort_by sort_order : option pyval) : M json :=
  let sort_by := default PNone sort_by in
  let sort_order := default PNone sort_order in
  url ← make_url "stock"
           [("symbol", symbols); ("sort_by", sort_by); ("sort_order", sort_order)];
  _get_api_response url.

Definition mutual_fund (symbols : pyval) (sort_order sort_by : option pyval) : M json :=
  let sort_order := default PNone sort_order in
  let sort_by := default PNone sort_by in
  url ← make_url "mutual_fund"
           [("symbol", symbols); ("sort_order", sort_order); ("sort_by", sort_by)];
  _get_api_response url.

Definition intraday (symbol : pyval) (interval range sort formatted : option pyval)
  : M json :=
  let interval := default (PInt 1) interval in
  let range := default (PInt 7) range in
  let sort := default PNone sort in
  let formatted := default PNone formatted in
  url ← make_url "intraday"
           [("symbol", symbol); ("interval", interval); ("range", range);
            ("sort", sort); ("formatted", formatted)];
  _get_api_response url.

Definition historic_data (symbol : pyval)
    (date_from date_to sort formatted : option pyval) : M json :=
  let date_from := default PNone date_from in
  let date_to := default PNone date_to in
  let sort := default PNone sort in
  let formatted := default PNone formatted in
  url ← make_url "history"
           [("symbol", symbol); ("date_from", date_from); ("date_to", date_to);
            ("sort", sort); ("formatted", formatted)];
  _get_api_response url.

Definition historic_multi_single_day (symbol date : pyval)
    (sort formatted : option pyval) : M json :=
  let sort := default PNone sort in
  let formatted := default PNone formatted in
  url ← make_url "history_msd"
           [("symbol", symbol); ("date", date); ("sort", sort);
            ("formatted", formatted)];
  _get_api_response url.

Definition forex (base : pyval) : M json :=
  url ← make_url "forex" [("base", base)];
  _get_api_response url.

Definition forex_historic (base convert_to : pyval)
    (sort formatted : option pyval) : M json :=
  let sort := default PNone sort in
  let formatted := default PNone formatted in
  url ← make_url "forex_history"
           [("base", base); ("convert_to", convert_to); ("sort", sort);
            ("formatted", formatted)];
  _get_api_response url.

Definition forex_historic_single_day (base date : pyval)
    (formatted : option pyval) : M json :=
  let formatted := default PNone formatted in
  url ← make_url "forex_single_day"
           [("base", base); ("date", date); ("formatted", formatted)];
  _get_api_response url.

Definition search (search_term : pyval)
    (search_by stock_exchange currency limit page sort_by sort_order : option pyval)
  : M json :=
  let search_by := default PNone search_by in
  let stock_exchange := default PNone stock_exchange in
  let currency := default PNone currency in
  let limit := default PNone limit in
  let page := default PNone page in
  let sort_by := default PNone sort_by in
  let sort_order := default PNone sort_order in
  url ← make_url "search"
           [("search_term", search_term); ("search_by", search_by);
            ("stock_exchange", stock_exchange); ("currency", currency);
            ("limit", limit); ("page", page); ("sort_by", sort_by);
            ("sort_order", sort_order)];
  _get_api_response url.

End Collaborators.

(** ** Calls: one constructor per operation method.

    A positional argument is a value; an optional argument is [Some v] when
    the caller passes it and [None] when the caller leaves it out, in which
    case the method's declared default applies. *)

Inductive call : Type :=
| CallStocks (symbols : pyval) (sort_by sort_order : option pyval)
| CallMutualFund (symbols : pyval) (sort_order sort_by : option pyval)
| CallIntraday (symbol : pyval) (interval range sort formatted : option pyval)
| CallHistoricData (symbol : pyval) (date_from date_to sort formatted : option pyval)
| CallHistoricMultiSingleDay (symbol date : pyval) (sort formatted : option pyval)
| CallForex (base : pyval)
| CallForexHistoric (base convert_to : pyval) (sort formatted : option pyval)
| CallForexHistoricSingleDay (base date : pyval) (formatted : option pyval)
| CallSearch (search_term : pyval)
    (search_by stock_exchange currency limit page sort_by sort_order : option pyval).

Definition invoke (requests_get : string -> result response)
    (json_loads : string -> result json) (c : call) : M json :=
  match c with
  | CallStocks s a b => stocks requests_get json_loads s a b
  | CallMutualFund s a b => mutual_fund requests_get json_loads s a b
  | CallIntraday s a b c d => intraday requests_get json_loads s a b c d
  | CallHistoricData s a b c d => historic_data requests_get json_loads s a b c d
  | CallHistoricMultiSingleDay s d a b =>
      historic_multi_single_day requests_get json_loads s d a b
  | CallForex b => forex requests_get json_loads b
  | CallForexHistoric b c s f => forex_historic requests_get json_loads b c s f
  | CallForexHistoricSingleDay b d f =>
      forex_historic_single_day requests_get json_loads b d f
  | CallSearch t a b c d e f g => search requests_get json_loads t a b c d e f g
  end.

(** ** Derived notions used to state properties *)

(** The client holds the string [tok] as its token. *)
Definition has_token (w : world) (tok : string) : Prop :=
  self w !! "api_key" = Some (PStr tok).

Definition starts_with (p s : string) : Prop := exists r, s = p +:+ r.
Definition ends_with (suffix s : string) : Prop := exists p, s = p +:+ suffix.
Definition contains (sub s : string) : Prop := exists p r, s = p +:+ sub +:+ r.

(** The registry key a call subscripts and the keyword arguments it hands
    to the builder, defaults applied ([invoke_unfold] below shows that these
    are the ones the methods use). *)
Definition call_endpoint (c : call) : string :=
  match c with
  | CallStocks _ _ _ => "stock"
  | CallMutualFund _ _ _ => "mutual_fund"
  | CallIntraday _ _ _ _ _ => "intraday"
  | CallHistoricData _ _ _ _ _ => "history"
  | CallHistoricMultiSingleDay _ _ _ _ => "history_msd"
  | CallForex _ => "forex"
  | CallForexHistoric _ _ _ _ => "forex_history"
  | CallForexHistoricSingleDay _ _ _ => "forex_single_day"
  | CallSearch _ _ _ _ _ _ _ _ => "search"
  end.

(** The optional arguments of a call, as the caller wrote them. *)
Definition optional_args (c : call) : list (string * option pyval) :=
  match c with
  | CallStocks _ a b => [("sort_by", a); ("sort_order", b)]
  | CallMutualFund _ a b => [("sort_order", a); ("sort_by", b)]
  | CallIntraday _ a b c d =>
      [("interval", a); ("range", b); ("sort", c); ("formatted", d)]
  | CallHistoricData _ a b c d =>
      [("date_from", a); ("date_to", b); ("sort", c); ("formatted", d)]
  | CallHistoricMultiSingleDay _ _ a b => [("sort", a); ("formatted", b)]
  | CallForex _ => []
  | CallForexHistoric _ _ a b => [("sort", a); ("formatted", b)]
  | CallForexHistoricSingleDay _ _ a => [("formatted", a)]
  | CallSearch _ a b c d e f g =>
      [("search_by", a); ("stock_exchange", b); ("currency", c); ("limit", d);
       ("page", e); ("sort_by", f); ("sort_order", g)]
  end.

(** The required arguments of a call. *)
Definition required_args (c : call) : list (string * pyval) :=
  match c with
  | CallStocks s _ _ | CallMutualFund s _ _ | CallIntraday s _ _ _ _
  | CallHistoricData s _ _ _ _ => [("symbol", s)]
  | CallHistoricMultiSingleDay s d _ _ => [("symbol", s); ("date", d)]
  | CallForex b => [("base", b)]
  | CallForexHistoric b c _ _ => [("base", b); ("convert_to", c)]
  | CallForexHistoricSingleDay b d _ => [("base", b); ("date", d)]
  | CallSearch t _ _ _ _ _ _ _ => [("search_term", t)]
  end.

(** The default a method declares for an optional argument. *)
Definition declared_default (c : call) (name : string) : pyval :=
  match c with
  | CallIntraday _ _ _ _ _ =>
      if String.eqb name "interval" then PInt 1
      else if String.eqb name "range" then PInt 7
      else PNone
  | _ => PNone
  end.

Definition call_kwargs (c : call) : list (string * pyval) :=
  required_args c ++
  map (fun '(name, o) => (name, default (declared_default c name) o))
      (optional_args c).

(** A keyword-argument list with every binding of [name] taken out. *)
Definition without (name : string) (kwargs : list (string * pyval))
  : list (string * pyval) :=
  List.filter (fun kv => negb (String.eqb (fst kv) name)) kwargs.

(** The call fetches the URL built from its keyword arguments with [name]
    taken out: [name] has no part in the query string. *)
Definition argument_absent (c : call) (name : string) (w : world) : Prop :=
  forall g l, exists base query rest,
    subscript API (call_endpoint c) = Ok base
    /\ fst (_build_misc_string (without name (call_kwargs c)) w) = Ok query
    /\ trace (snd (invoke g l c w)) = trace w ++ EvGet (base +:+ query) :: rest.

(** The quotation mark, and the body [{"foo": 1}]. *)
Definition dq : string := String (ascii_of_nat 34) "".
Definition foo_body : string := "{" +:+ dq +:+ "foo" +:+ dq +:+ ": 1}".

(** Test doubles: a transport that always answers [resp], and a decoder
    that knows the body [{"foo": 1}] only. *)
Definition mock_get (resp : response) : string -> result response :=
  fun _ => Ok resp.

Definition mock_loads : string -> result json :=
  fun body =>
    if String.eqb body foo_body then Ok (JObj [("foo", JNum 1)])
    else Raise (Foreign "JSONDecodeError").

(** ** Further derived notions *)

(** The fragments the loop appends, in order: one per argument whose value
    is not [None]. *)
Definition emitted (kwargs : list (string * pyval)) : list string :=
  map (fun kv => fragment (fst kv) (snd kv))
      (List.filter (fun kv => negb (eq_None (snd kv))) kwargs).

Definition concat_all (parts : list string) : string :=
  fold_right String.append "" parts.

(** [isinstance(value, str)]. *)
Definition is_str (value : pyval) : bool :=
  match value with
  | Atom (AStr _) => true
  | _ => false
  end.

(** The URL a call asks the transport for when the token is [tok]. *)
Definition call_url (c : call) (tok : string) : string :=
  match subscript API (call_endpoint c) with
  | Ok base => base +:+ build_loop "?" (call_kwargs c) +:+ "api_token=" +:+ tok
  | Raise _ => ""
  end.

(** The call with every optional argument written out. *)
Definition fill (name : string) (c : call) (o : option pyval) : option pyval :=
  Some (default (declared_default c name) o).

Definition fill_defaults (c : call) : call :=
  match c with
  | CallStocks s a b =>
      CallStocks s (fill "sort_by" c a) (fill "sort_order" c b)
  | CallMutualFund s a b =>
      CallMutualFund s (fill "sort_order" c a) (fill "sort_by" c b)
  | CallIntraday s a b x y =>
      CallIntraday s (fill "interval" c a) (fill "range" c b)
        (fill "sort" c x) (fill "formatted" c y)
  | CallHistoricData s a b x y =>
      CallHistoricData s (fill "date_from" c a) (fill "date_to" c b)
        (fill "sort" c x) (fill "formatted" c y)
  | CallHistoricMultiSingleDay s d a b =>
      CallHistoricMultiSingleDay s d (fill "sort" c a) (fill "formatted" c b)
  | CallForex b => CallForex b
  | CallForexHistoric b t x y =>
      CallForexHistoric b t (fill "sort" c x) (fill "formatted" c y)
  | CallForexHistoricSingleDay b d x =>
      CallForexHistoricSingleDay b d (fill "formatted" c x)
  | CallSearch t a b x y z u v =>
      CallSearch t (fill "search_by" c a) (fill "stock_exchange" c b)
        (fill "currency" c x) (fill "limit" c y) (fill "page" c z)
        (fill "sort_by" c u) (fill "sort_order" c v)
  end.

(** [ch in s]. *)
Fixpoint mentions (ch : ascii) (s : string) : bool :=
  match s with
  | EmptyString => false
  | String x rest => Ascii.eqb x ch || mentions ch rest
  end.

(** * Properties *)

(** ** Strings *)

Lemma app_cons (x : ascii) (a b : string) :
  String x a +:+ b = String x (a +:+ b).
Proof. reflexivity. Qed.

Lemma app_assoc_s (a b c : string) : (a +:+ b) +:+ c = a +:+ (b +:+ c).
Proof.
  induction a as [|x a IH]; [reflexivity|].
  rewrite !app_cons. now rewrite IH.
Qed.

Lemma app_empty_r (a : string) : a +:+ "" = a.
Proof.
  induction a as [|x a IH]; [reflexivity|].
  rewrite app_cons. now rewrite IH.
Qed.

(** ** The builder's loop *)

(** The loop only ever appends to [misc]. *)
Lemma build_loop_acc (misc : string) (items : list (string * pyval)) :
  build_loop misc items = misc +:+ build_loop "" items.
Proof.
  revert misc. induction items as [|[k v] rest IH]; intros misc; simpl.
  - now rewrite app_empty_r.
  - destruct (eq_None v).
    + apply IH.
    + change ("" +:+ fragment k v) with (fragment k v).
      rewrite (IH (misc +:+ fragment k v)), (IH (fragment k v)).
      apply app_assoc_s.
Qed.

Lemma build_loop_app (misc : string) (l1 l2 : list (string * pyval)) :
  build_loop misc (l1 ++ l2) = build_loop (build_loop misc l1) l2.
Proof.
  revert misc. induction l1 as [|[k v] rest IH]; intros misc; simpl.
  - reflexivity.
  - destruct (eq_None v); apply IH.
Qed.

(** The contribution of one item in the middle of the argument list. *)
Lemma build_loop_middle misc pre key value post :
  build_loop misc (pre ++ (key, value) :: post) =
  build_loop misc pre
    +:+ (if eq_None value then "" else fragment key value)
    +:+ build_loop "" post.
Proof.
  rewrite build_loop_app. cbn [build_loop]. destruct (eq_None value).
  - apply build_loop_acc.
  - rewrite (build_loop_acc (_ +:+ _) post). apply app_assoc_s.
Qed.

Lemma build_loop_all_None misc items :
  Forall (fun kv => snd kv = PNone) items -> build_loop misc items = misc.
Proof.
  induction 1 as [|[k v] rest Hv _ IH]; simpl; [reflexivity|].
  simpl in Hv. subst v. simpl. exact IH.
Qed.

(** ** The builder *)

Lemma build_misc_string_ok kwargs w tok :
  has_token w tok ->
  _build_misc_string kwargs w =
  (Ok (build_loop "?" kwargs +:+ "api_token=" +:+ tok), w).
Proof.
  intros Htok. unfold _build_misc_string, mbind, M_bind, bind, getattr.
  unfold has_token in Htok. rewrite Htok. reflexivity.
Qed.

Lemma build_misc_string_middle pre key value post w tok :
  has_token w tok ->
  _build_misc_string (pre ++ (key, value) :: post) w =
  (Ok (build_loop "?" pre
         +:+ (if eq_None value then "" else fragment key value)
         +:+ build_loop "" post +:+ "api_token=" +:+ tok), w).
Proof.
  intros Htok. rewrite (build_misc_string_ok _ _ _ Htok).
  rewrite build_loop_middle. now rewrite !app_assoc_s.
Qed.

Lemma eq_None_spec (value : pyval) : eq_None value = true <-> value = PNone.
Proof.
  split.
  - destruct value as [[| | |]|]; simpl; intros H; congruence.
  - intros ->. reflexivity.
Qed.

Lemma fragment_shape key value :
  exists body, fragment key value = key +:+ "=" +:+ body +:+ "&".
Proof.
  destruct value as [a|l]; unfold fragment.
  - exists (str_atom a). apply app_assoc_s.
  - exists (join "," (map str_atom l)). apply app_assoc_s.
Qed.

(** C1: whatever the keyword arguments and the stored token, the string the
    builder returns starts with [?] and ends with [api_token=<token>], with
    nothing after it; when every argument is [None] it is exactly
    [?api_token=<token>]. *)
Theorem build_misc_string_token_last kwargs w tok :
  has_token w tok ->
  exists s,
    _build_misc_string kwargs w = (Ok s, w)
    /\ starts_with "?" s
    /\ ends_with ("api_token=" +:+ tok) s
    /\ (Forall (fun kv => snd kv = PNone) kwargs -> s = "?api_token=" +:+ tok).
Proof.
  intros Htok. eexists. split; [apply build_misc_string_ok, Htok|].
  repeat split.
  - exists (build_loop "" kwargs +:+ "api_token=" +:+ tok).
    rewrite build_loop_acc. apply app_assoc_s.
  - exists (build_loop "?" kwargs). reflexivity.
  - intros Hnone. now rewrite build_loop_all_None.
Qed.

Lemma build_misc_string_token_last_witness :
  exists s,
    _build_misc_string [("sort", PNone); ("symbol", PStr "AAPL")]
      (mkWorld (<["api_key" := PStr "K"]> ∅) []) =
      (Ok s, mkWorld (<["api_key" := PStr "K"]> ∅) [])
    /\ starts_with "?" s
    /\ ends_with ("api_token=" +:+ "K") s
    /\ (Forall (fun kv => snd kv = PNone)
          [("sort", PNone); ("symbol", PStr "AAPL")] ->
        s = "?api_token=" +:+ "K").
Proof.
  apply (build_misc_string_token_last
           [("sort", PNone); ("symbol", PStr "AAPL")]
           (mkWorld (<["api_key" := PStr "K"]> ∅) []) "K").
  reflexivity.
Defined.

(** C2: a list-valued argument [name=[a, b, c]] makes the builder emit
    exactly [name=a,b,c&], the string forms of the elements joined by commas
    in list order, at the argument's place in the query string; for a list
    of any length the fragment is [name=] followed by the comma-join and
    [&]. *)
Theorem list_argument_fragment name (elems : list atom) a b c pre post w tok :
  has_token w tok ->
  fragment name (PList [a; b; c]) =
    name +:+ "=" +:+ str_atom a +:+ "," +:+ str_atom b +:+ ","
         +:+ str_atom c +:+ "&"
  /\ _build_misc_string (pre ++ (name, PList [a; b; c]) :: post) w =
     (Ok (build_loop "?" pre
            +:+ (name +:+ "=" +:+ str_atom a +:+ "," +:+ str_atom b +:+ ","
                      +:+ str_atom c +:+ "&")
            +:+ build_loop "" post +:+ "api_token=" +:+ tok), w)
  /\ _build_misc_string (pre ++ (name, PList elems) :: post) w =
     (Ok (build_loop "?" pre
            +:+ (name +:+ "=" +:+ join "," (map str_atom elems) +:+ "&")
            +:+ build_loop "" post +:+ "api_token=" +:+ tok), w).
Proof.
  intros Htok.
  assert (Hfrag : forall l, fragment name (PList l) =
                            name +:+ "=" +:+ join "," (map str_atom l) +:+ "&").
  { intros l. unfold fragment. apply app_assoc_s. }
  assert (Habc : join "," (map str_atom [a; b; c]) +:+ "&" =
                 str_atom a +:+ "," +:+ str_atom b +:+ "," +:+ str_atom c +:+ "&").
  { cbn [map join]. now rewrite !app_assoc_s. }
  split; [|split].
  - rewrite Hfrag. now rewrite Habc.
  - rewrite (build_misc_string_middle _ _ _ _ _ _ Htok).
    cbn [eq_None]. rewrite Hfrag. now rewrite Habc.
  - rewrite (build_misc_string_middle _ _ _ _ _ _ Htok).
    cbn [eq_None]. now rewrite Hfrag.
Qed.

Lemma list_argument_fragment_witness :
  _build_misc_string
    ([("search_term", PStr "apple")]
       ++ ("stock_exchange", PList [AStr "NYSE"; AStr "NASDAQ"; AStr "LSE"])
       :: [("limit", PInt 5)])
    (mkWorld (<["api_key" := PStr "K"]> ∅) []) =
  (Ok "?search_term=apple&stock_exchange=NYSE,NASDAQ,LSE&limit=5&api_token=K",
   mkWorld (<["api_key" := PStr "K"]> ∅) []).
Proof.
  exact (proj1 (proj2 (list_argument_fragment "stock_exchange" []
                  (AStr "NYSE") (AStr "NASDAQ") (AStr "LSE")
                  [("search_term", PStr "apple")] [("limit", PInt 5)]
                  (mkWorld (<["api_key" := PStr "K"]> ∅) []) "K"
                  eq_refl))).
Defined.

(** C9: only [None] is skipped.  An argument passed as the empty string, or
    as the empty list, is emitted as [name=&]; an argument passed as [None]
    leaves the query string as if it were not there; any other value emits
    its fragment, which starts with [name=] and ends with [&]. *)
Theorem only_None_is_skipped pre name post w tok :
  has_token w tok ->
  _build_misc_string (pre ++ (name, PStr "") :: post) w =
    (Ok (build_loop "?" pre +:+ (name +:+ "=&")
           +:+ build_loop "" post +:+ "api_token=" +:+ tok), w)
  /\ _build_misc_string (pre ++ (name, PList []) :: post) w =
    (Ok (build_loop "?" pre +:+ (name +:+ "=&")
           +:+ build_loop "" post +:+ "api_token=" +:+ tok), w)
  /\ _build_misc_string (pre ++ (name, PNone) :: post) w =
     _build_misc_string (pre ++ post) w
  /\ forall value, value <> PNone ->
       _build_misc_string (pre ++ (name, value) :: post) w =
         (Ok (build_loop "?" pre +:+ fragment name value
                +:+ build_loop "" post +:+ "api_token=" +:+ tok), w)
       /\ starts_with (name +:+ "=") (fragment name value)
       /\ ends_with "&" (fragment name value).
Proof.
  intros Htok.
  assert (Hempty : forall v, v = PStr "" \/ v = PList [] ->
                             fragment name v = name +:+ "=&").
  { intros v [-> | ->]; unfold fragment; cbn [map join str_atom];
      now rewrite app_assoc_s. }
  repeat split.
  - rewrite (build_misc_string_middle _ _ _ _ _ _ Htok).
    cbn [eq_None]. rewrite Hempty; auto.
  - rewrite (build_misc_string_middle _ _ _ _ _ _ Htok).
    cbn [eq_None]. rewrite Hempty; auto.
  - rewrite (build_misc_string_middle _ _ _ _ _ _ Htok).
    rewrite (build_misc_string_ok _ _ _ Htok).
    cbn [eq_None].
    rewrite build_loop_app, (build_loop_acc (build_loop "?" pre) post).
    rewrite app_assoc_s. reflexivity.
  - rewrite (build_misc_string_middle _ _ _ _ _ _ Htok).
    destruct (eq_None value) eqn:E; [|reflexivity].
    apply eq_None_spec in E. contradiction.
  - destruct (fragment_shape name value) as [body ->].
    exists (body +:+ "&"). now rewrite !app_assoc_s.
  - destruct (fragment_shape name value) as [body ->].
    exists (name +:+ "=" +:+ body). now rewrite !app_assoc_s.
Qed.

Lemma only_None_is_skipped_witness :
  _build_misc_string [("symbol", PStr "AAPL"); ("sort", PStr "")]
    (mkWorld (<["api_key" := PStr "K"]> ∅) []) =
  (Ok "?symbol=AAPL&sort=&api_token=K",
   mkWorld (<["api_key" := PStr "K"]> ∅) []).
Proof.
  exact (proj1 (only_None_is_skipped [("symbol", PStr "AAPL")] "sort" []
                  (mkWorld (<["api_key" := PStr "K"]> ∅) []) "K" eq_refl)).
Defined.

(** ** Operation methods *)

Lemma invoke_unfold g l c :
  invoke g l c =
  (url ← make_url (call_endpoint c) (call_kwargs c); _get_api_response g l url).
Proof. destruct c; reflexivity. Qed.

Lemma registry_has_endpoint c :
  exists base, subscript API (call_endpoint c) = Ok base.
Proof. destruct c; eexists; reflexivity. Qed.

Lemma make_url_ok name kwargs base w tok :
  has_token w tok ->
  subscript API name = Ok base ->
  make_url name kwargs w =
  (Ok (base +:+ build_loop "?" kwargs +:+ "api_token=" +:+ tok), w).
Proof.
  intros Htok Hbase. unfold make_url, mbind, M_bind, bind, lift.
  rewrite Hbase, (build_misc_string_ok _ _ _ Htok). reflexivity.
Qed.

(** What one run of the fetch-and-decode routine does to the world. *)
Lemma get_api_response_run g l url w :
  _get_api_response g l url w =
  match g url with
  | Raise e => (Raise e, mkWorld (self w) (trace w ++ [EvGet url]))
  | Ok resp =>
      if Z.eqb (status_code resp) SUCCESS
      then (l (text resp),
            mkWorld (self w) (trace w ++ [EvGet url; EvLoads (text resp)]))
      else (Raise (APIAccessError ("Error: " +:+ text resp)),
            mkWorld (self w) (trace w ++ [EvGet url]))
  end.
Proof.
  unfold _get_api_response, mbind, M_bind, bind, lift, log, raise.
  cbn [self trace]. destruct (g url) as [resp|e]; [|reflexivity].
  destruct (Z.eqb (status_code resp) SUCCESS); cbn [negb self trace];
    [|reflexivity].
  rewrite <- List.app_assoc. reflexivity.
Qed.

Lemma invoke_run g l c w tok :
  has_token w tok ->
  exists base,
    subscript API (call_endpoint c) = Ok base
    /\ invoke g l c w =
       _get_api_response g l
         (base +:+ build_loop "?" (call_kwargs c) +:+ "api_token=" +:+ tok) w.
Proof.
  intros Htok. destruct (registry_has_endpoint c) as [base Hbase].
  exists base. split; [exact Hbase|].
  rewrite invoke_unfold. unfold mbind, M_bind, bind.
  now rewrite (make_url_ok _ _ _ _ _ Htok Hbase).
Qed.

(** Every call starts with a GET of its endpoint's base URL followed by the
    query string built from its keyword arguments. *)
Lemma invoke_trace g l c w tok :
  has_token w tok ->
  exists base rest,
    subscript API (call_endpoint c) = Ok base
    /\ trace (snd (invoke g l c w)) =
       trace w ++
       EvGet (base +:+ build_loop "?" (call_kwargs c) +:+ "api_token=" +:+ tok)
       :: rest.
Proof.
  intros Htok. destruct (invoke_run g l c w tok Htok) as (base & Hbase & ->).
  exists base. rewrite get_api_response_run.
  match goal with |- context [g ?u] => destruct (g u) as [resp|e] end.
  - destruct (Z.eqb (status_code resp) SUCCESS); eexists; split; eauto.
  - eexists; split; eauto.
Qed.

(** C5: whatever the operation, when the transport answers with a status
    other than 200 the call raises [APIAccessError]; its message is
    [Error: ] followed by the raw body, so it contains the body; exactly one
    GET was made and [json.loads] was not called. *)
Theorem non_success_raises_access_error g l c w tok :
  has_token w tok ->
  (forall url, exists resp, g url = Ok resp /\ status_code resp <> 200%Z) ->
  exists url resp,
    g url = Ok resp
    /\ invoke g l c w =
       (Raise (APIAccessError ("Error: " +:+ text resp)),
        mkWorld (self w) (trace w ++ [EvGet url]))
    /\ contains (text resp) ("Error: " +:+ text resp).
Proof.
  intros Htok Hg. destruct (invoke_run g l c w tok Htok) as (base & _ & ->).
  set (url := base +:+ build_loop "?" (call_kwargs c) +:+ "api_token=" +:+ tok).
  destruct (Hg url) as (resp & Hresp & Hstatus).
  exists url, resp. split; [exact Hresp|]. split.
  - rewrite get_api_response_run, Hresp.
    destruct (Z.eqb_spec (status_code resp) SUCCESS) as [E|_]; [|reflexivity].
    unfold SUCCESS in E. contradiction.
  - exists "Error: ", "". now rewrite app_empty_r.
Qed.

Lemma non_success_raises_access_error_witness :
  exists url resp,
    (fun _ : string => Ok (mkResponse 404 "not found")) url = Ok resp
    /\ invoke (fun _ => Ok (mkResponse 404 "not found"))
         (fun _ => Raise (Foreign "JSONDecodeError"))
         (CallForex (PStr "USD"))
         (mkWorld (<["api_key" := PStr "K"]> ∅) []) =
       (Raise (APIAccessError ("Error: " +:+ text resp)),
        mkWorld (self (mkWorld (<["api_key" := PStr "K"]> ∅) []))
          (trace (mkWorld (<["api_key" := PStr "K"]> ∅) []) ++ [EvGet url]))
    /\ contains (text resp) ("Error: " +:+ text resp).
Proof.
  apply (non_success_raises_access_error
           (fun _ => Ok (mkResponse 404 "not found"))
           (fun _ => Raise (Foreign "JSONDecodeError"))
           (CallForex (PStr "USD"))
           (mkWorld (<["api_key" := PStr "K"]> ∅) []) "K").
  - reflexivity.
  - intros url. exists (mkResponse 404 "not found").
    split; [reflexivity | simpl; lia].
Defined.

(** C6, amended: whatever the operation, when the transport answers with
    status 200 the outcome of the call is the outcome of [json.loads] on the
    response body, untouched: a body that decodes is returned as the decoded
    value, with no error; an exception raised by the decoder reaches the
    caller as it is.  One GET and one decode were made. *)
Theorem success_returns_decoded_body g l c w tok :
  has_token w tok ->
  (forall url, exists resp, g url = Ok resp /\ status_code resp = 200%Z) ->
  exists url resp,
    g url = Ok resp
    /\ invoke g l c w =
       (l (text resp),
        mkWorld (self w) (trace w ++ [EvGet url; EvLoads (text resp)]))
    /\ (forall v, l (text resp) = Ok v -> fst (invoke g l c w) = Ok v)
    /\ (forall e, l (text resp) = Raise e -> fst (invoke g l c w) = Raise e).
Proof.
  intros Htok Hg. destruct (invoke_run g l c w tok Htok) as (base & _ & ->).
  set (url := base +:+ build_loop "?" (call_kwargs c) +:+ "api_token=" +:+ tok).
  destruct (Hg url) as (resp & Hresp & Hstatus).
  assert (Hrun : _get_api_response g l url w =
                 (l (text resp),
                  mkWorld (self w)
                    (trace w ++ [EvGet url; EvLoads (text resp)]))).
  { rewrite get_api_response_run, Hresp, Hstatus. reflexivity. }
  exists url, resp. split; [exact Hresp|]. split; [exact Hrun|]. split.
  - intros v Hv. rewrite Hrun. exact Hv.
  - intros e He. rewrite Hrun. exact He.
Qed.

Lemma success_returns_decoded_body_witness :
  fst (stocks (mock_get (mkResponse 200 foo_body)) mock_loads
         (PStr "AAPL") None None
         (mkWorld (<["api_key" := PStr "K"]> ∅) [])) =
  Ok (JObj [("foo", JNum 1)]).
Proof.
  assert (Htok : has_token (mkWorld (<["api_key" := PStr "K"]> ∅) []) "K")
    by reflexivity.
  assert (Hget : forall url, exists resp,
             mock_get (mkResponse 200 foo_body) url = Ok resp
             /\ status_code resp = 200%Z).
  { intros url. exists (mkResponse 200 foo_body). split; reflexivity. }
  destruct (success_returns_decoded_body
              (mock_get (mkResponse 200 foo_body)) mock_loads
              (CallStocks (PStr "AAPL") None None)
              (mkWorld (<["api_key" := PStr "K"]> ∅) []) "K" Htok Hget)
    as (url & resp & Hresp & _ & Hvalue & _).
  apply Hvalue. injection Hresp as <-. reflexivity.
Defined.

(** C6 as stated fails: with status 200 and the body [not json], which the
    decoder rejects, [stocks("AAPL")] returns nothing and raises the
    decoder's exception. *)
Lemma status_200_undecodable_body_raises :
  status_code (mkResponse 200 "not json") = SUCCESS
  /\ stocks (mock_get (mkResponse 200 "not json")) mock_loads
       (PStr "AAPL") None None
       (mkWorld (<["api_key" := PStr "K"]> ∅) []) =
     (Raise (Foreign "JSONDecodeError"),
      mkWorld (<["api_key" := PStr "K"]> ∅)
        [EvGet "https://www.worldtradingdata.com/api/v1/stock?symbol=AAPL&api_token=K";
         EvLoads "not json"])
  /\ ~ exists v,
        fst (stocks (mock_get (mkResponse 200 "not json")) mock_loads
               (PStr "AAPL") None None
               (mkWorld (<["api_key" := PStr "K"]> ∅) [])) = Ok v.
Proof.
  split; [reflexivity|]. split; [reflexivity|].
  intros [v Hv]. vm_compute in Hv. discriminate Hv.
Qed.

(** C7: [search("apple", stock_exchange=["NYSE","NASDAQ"])], every other
    optional argument left out, fetches the registry's search URL followed
    by [?search_term=apple&stock_exchange=NYSE,NASDAQ&api_token=<token>]:
    the query contains both fragments and ends with the token parameter. *)
Theorem search_example_url g l w tok :
  has_token w tok ->
  exists base query rest,
    subscript API "search" = Ok base
    /\ base = "https://www.worldtradingdata.com/api/v1/stock_search"
    /\ query =
       "?search_term=apple&stock_exchange=NYSE,NASDAQ&api_token=" +:+ tok
    /\ trace (snd (search g l (PStr "apple") None
                     (Some (PList [AStr "NYSE"; AStr "NASDAQ"]))
                     None None None None None w)) =
       trace w ++ EvGet (base +:+ query) :: rest
    /\ contains "search_term=apple" query
    /\ contains "stock_exchange=NYSE,NASDAQ" query
    /\ ends_with ("api_token=" +:+ tok) query.
Proof.
  intros Htok.
  pose (c := CallSearch (PStr "apple") None
               (Some (PList [AStr "NYSE"; AStr "NASDAQ"]))
               None None None None None).
  exists "https://www.worldtradingdata.com/api/v1/stock_search".
  exists ("?search_term=apple&stock_exchange=NYSE,NASDAQ&api_token=" +:+ tok).
  destruct (invoke_trace g l c w tok Htok) as (base & rest & Hbase & Hrest).
  injection Hbase as <-. exists rest.
  repeat split.
  - exact Hrest.
  - exists "?", ("&stock_exchange=NYSE,NASDAQ&api_token=" +:+ tok). reflexivity.
  - exists "?search_term=apple&", ("&api_token=" +:+ tok). reflexivity.
  - exists "?search_term=apple&stock_exchange=NYSE,NASDAQ&". reflexivity.
Qed.

Lemma search_example_url_witness :
  exists base query rest,
    subscript API "search" = Ok base
    /\ base = "https://www.worldtradingdata.com/api/v1/stock_search"
    /\ query =
       "?search_term=apple&stock_exchange=NYSE,NASDAQ&api_token=" +:+ "K"
    /\ trace (snd (search (mock_get (mkResponse 200 foo_body)) mock_loads
                     (PStr "apple") None
                     (Some (PList [AStr "NYSE"; AStr "NASDAQ"]))
                     None None None None None
                     (mkWorld (<["api_key" := PStr "K"]> ∅) []))) =
       trace (mkWorld (<["api_key" := PStr "K"]> ∅) [])
         ++ EvGet (base +:+ query) :: rest
    /\ contains "search_term=apple" query
    /\ contains "stock_exchange=NYSE,NASDAQ" query
    /\ ends_with ("api_token=" +:+ "K") query.
Proof.
  apply (search_example_url (mock_get (mkResponse 200 foo_body)) mock_loads
           (mkWorld (<["api_key" := PStr "K"]> ∅) []) "K").
  reflexivity.
Defined.

(** ** Arguments whose value is [None] *)

Lemma build_loop_without misc name kwargs :
  (forall v, In (name, v) kwargs -> v = PNone) ->
  build_loop misc kwargs = build_loop misc (without name kwargs).
Proof.
  revert misc. induction kwargs as [|[k v] rest IH]; intros misc Hnone.
  - reflexivity.
  - assert (Hrest : forall v', In (name, v') rest -> v' = PNone)
      by (intros v' Hv'; apply Hnone; right; exact Hv').
    unfold without. cbn [List.filter build_loop fst].
    destruct (String.eqb_spec k name) as [->|Hne]; cbn [negb].
    + rewrite (Hnone v (or_introl eq_refl)). cbn [eq_None].
      apply IH, Hrest.
    + cbn [build_loop]. destruct (eq_None v); apply IH, Hrest.
Qed.

Ltac split_In H :=
  repeat match type of H with
         | In _ (_ :: _) => destruct H as [H|H]
         | In _ [] => destruct H
         | _ \/ _ => destruct H as [H|H]
         | False => destruct H
         end.

(** In a call the argument names are distinct, so an optional argument
    whose value comes out as [None] is bound to [None] only. *)
Lemma call_kwargs_None c name o :
  In (name, o) (optional_args c) ->
  o = Some PNone
  \/ (o = None
      /\ ~ (call_endpoint c = "intraday" /\ (name = "interval" \/ name = "range"))) ->
  forall v, In (name, v) (call_kwargs c) -> v = PNone.
Proof.
  intros Hin Ho v Hv.
  destruct c; cbn in Hin; split_In Hin; injection Hin as <- <-;
    cbn in Hv; split_In Hv; try discriminate Hv;
    injection Hv as <-;
    destruct Ho as [Ho|[Ho Hnot]]; try (injection Ho as <-); try subst;
    try reflexivity;
    exfalso; apply Hnot; split; auto.
Qed.

(** C3, amended: in every operation method, an optional argument passed as
    [None], or left out when it is not [interval] or [range] of [intraday],
    contributes nothing: the URL the call fetches is the one built from its
    keyword arguments with that name taken out. *)
Theorem None_argument_is_absent c name o w tok :
  has_token w tok ->
  In (name, o) (optional_args c) ->
  o = Some PNone
  \/ (o = None
      /\ ~ (call_endpoint c = "intraday" /\ (name = "interval" \/ name = "range"))) ->
  argument_absent c name w.
Proof.
  intros Htok Hin Ho g l.
  destruct (invoke_trace g l c w tok Htok) as (base & rest & Hbase & Htrace).
  exists base,
    (build_loop "?" (without name (call_kwargs c)) +:+ "api_token=" +:+ tok),
    rest.
  split; [exact Hbase|]. split.
  - now rewrite (build_misc_string_ok _ _ _ Htok).
  - rewrite Htrace.
    now rewrite (build_loop_without "?" name (call_kwargs c)
                   (call_kwargs_None c name o Hin Ho)).
Qed.

Lemma None_argument_is_absent_witness :
  argument_absent (CallStocks (PStr "AAPL") None (Some PNone)) "sort_by"
    (mkWorld (<["api_key" := PStr "K"]> ∅) []).
Proof.
  apply (None_argument_is_absent (CallStocks (PStr "AAPL") None (Some PNone))
           "sort_by" None (mkWorld (<["api_key" := PStr "K"]> ∅) []) "K").
  - reflexivity.
  - left. reflexivity.
  - right. split; [reflexivity|]. intros [Hep _]. discriminate Hep.
Defined.

(** C3 as stated fails: [intraday("AAPL")] leaves [interval] out, and the
    URL it fetches carries [interval=1]. *)
Lemma intraday_interval_left_out_is_emitted :
  has_token (mkWorld (<["api_key" := PStr "K"]> ∅) []) "K"
  /\ In ("interval", None)
        (optional_args (CallIntraday (PStr "AAPL") None None None None))
  /\ trace (snd (intraday (mock_get (mkResponse 200 foo_body)) mock_loads
                   (PStr "AAPL") None None None None
                   (mkWorld (<["api_key" := PStr "K"]> ∅) []))) =
     [EvGet "https://www.worldtradingdata.com/api/v1/intraday?symbol=AAPL&interval=1&range=7&api_token=K";
      EvLoads foo_body]
  /\ ~ argument_absent (CallIntraday (PStr "AAPL") None None None None)
         "interval" (mkWorld (<["api_key" := PStr "K"]> ∅) []).
Proof.
  split; [reflexivity|]. split; [left; reflexivity|]. split; [reflexivity|].
  intros Habs.
  destruct (Habs (mock_get (mkResponse 200 foo_body)) mock_loads)
    as (base & query & rest & Hbase & Hquery & Htrace).
  injection Hbase as <-. injection Hquery as <-.
  vm_compute in Htrace. discriminate Htrace.
Qed.

(** ** Construction and the credential setter *)

Lemma has_token_insert attrs tr tok :
  has_token (mkWorld (<["api_key" := PStr tok]> attrs) tr) tok.
Proof. unfold has_token. cbn [self]. apply lookup_insert_eq. Qed.

(** C4: construction with no token, with [None] or with the empty string
    raises [APIKeyNotSet]; construction with a non-empty string succeeds and
    stores it; and there is no third outcome: any construction either raises
    [APIKeyNotSet] on an untouched instance or stores the argument. *)
Theorem construction_outcomes tr :
  WTDApi None tr = (Raise (APIKeyNotSet key_not_set_message), mkWorld ∅ tr)
  /\ WTDApi (Some PNone) tr =
     (Raise (APIKeyNotSet key_not_set_message), mkWorld ∅ tr)
  /\ WTDApi (Some (PStr "")) tr =
     (Raise (APIKeyNotSet key_not_set_message), mkWorld ∅ tr)
  /\ (forall ch s,
        WTDApi (Some (PStr (String ch s))) tr =
          (Ok tt, mkWorld (<["api_key" := PStr (String ch s)]> ∅) tr)
        /\ has_token (snd (WTDApi (Some (PStr (String ch s))) tr)) (String ch s))
  /\ (forall arg,
        WTDApi arg tr =
          (Raise (APIKeyNotSet key_not_set_message), mkWorld ∅ tr)
        \/ exists v, arg = Some v
             /\ WTDApi arg tr = (Ok tt, mkWorld (<["api_key" := v]> ∅) tr)).
Proof.
  split; [reflexivity|]. split; [reflexivity|]. split; [reflexivity|]. split.
  - intros ch s. split; [reflexivity|]. apply has_token_insert.
  - intros [v|]; [|left; reflexivity].
    unfold WTDApi, __init__. change (default PNone (Some v)) with v.
    destruct (truthy v); cbn [negb]; [right|left; reflexivity].
    exists v. split; reflexivity.
Qed.

(** With a token that is not a string the builder cannot concatenate. *)
Lemma build_misc_string_needs_str kwargs w :
  self w !! "api_key" = Some PNone ->
  _build_misc_string kwargs w = (Raise TypeError, w).
Proof.
  intros H. unfold _build_misc_string, mbind, M_bind, bind, getattr.
  rewrite H. reflexivity.
Qed.

(** C8: the setter succeeds, stores the new value under [api_key], leaves
    every other attribute and the collaborators' log as they were; a string
    built before the call keeps the old token, every string and URL built
    after it carries the new one. *)
Theorem set_api_key_frame kw_before kw_after v new_tok w old_tok :
  has_token w old_tok ->
  (set_api_key v w = (Ok tt, mkWorld (<["api_key" := v]> (self w)) (trace w))
   /\ self (snd (set_api_key v w)) !! "api_key" = Some v
   /\ (forall attr, attr <> "api_key" ->
         self (snd (set_api_key v w)) !! attr = self w !! attr)
   /\ trace (snd (set_api_key v w)) = trace w)
  /\ (forall kwargs,
        _build_misc_string kwargs (snd (set_api_key (PStr new_tok) w)) =
        (Ok (build_loop "?" kwargs +:+ "api_token=" +:+ new_tok),
         snd (set_api_key (PStr new_tok) w)))
  /\ (forall g l c, exists base rest,
        subscript API (call_endpoint c) = Ok base
        /\ trace (snd (invoke g l c (snd (set_api_key (PStr new_tok) w)))) =
           trace w ++
           EvGet (base +:+ build_loop "?" (call_kwargs c)
                       +:+ "api_token=" +:+ new_tok) :: rest)
  /\ (s1 ← _build_misc_string kw_before;
      _ ← set_api_key (PStr new_tok);
      s2 ← _build_misc_string kw_after;
      mret (s1, s2)) w =
     (Ok (build_loop "?" kw_before +:+ "api_token=" +:+ old_tok,
          build_loop "?" kw_after +:+ "api_token=" +:+ new_tok),
      snd (set_api_key (PStr new_tok) w)).
Proof.
  intros Hold.
  assert (Hnew : has_token (snd (set_api_key (PStr new_tok) w)) new_tok)
    by apply has_token_insert.
  split; [|split; [|split]].
  - split; [reflexivity|]. cbn [set_api_key setattr snd self trace].
    split; [apply lookup_insert_eq|]. split; [|reflexivity].
    intros attr Hattr. apply lookup_insert_ne. congruence.
  - intros kwargs. apply build_misc_string_ok, Hnew.
  - intros g l c.
    destruct (invoke_trace g l c _ new_tok Hnew) as (base & rest & Hb & Ht).
    exists base, rest. split; [exact Hb | exact Ht].
  - unfold mbind, M_bind, bind, mret, M_ret, ret.
    rewrite (build_misc_string_ok _ _ _ Hold).
    change (set_api_key (PStr new_tok) w)
      with (Ok tt, snd (set_api_key (PStr new_tok) w)).
    cbv iota. now rewrite (build_misc_string_ok _ _ _ Hnew).
Qed.

Lemma set_api_key_frame_witness :
  (s1 ← _build_misc_string [("base", PStr "USD")];
   _ ← set_api_key (PStr "NEW");
   s2 ← _build_misc_string [("base", PStr "EUR")];
   mret (s1, s2))
    (mkWorld (<["api_key" := PStr "OLD"]> ∅) []) =
  (Ok ("?base=USD&api_token=OLD", "?base=EUR&api_token=NEW"),
   snd (set_api_key (PStr "NEW") (mkWorld (<["api_key" := PStr "OLD"]> ∅) []))).
Proof.
  exact (proj2 (proj2 (proj2
    (set_api_key_frame [("base", PStr "USD")] [("base", PStr "EUR")]
       (PStr "NEW") "NEW" (mkWorld (<["api_key" := PStr "OLD"]> ∅) [])
       "OLD" eq_refl)))).
Defined.

(** C10: the setter takes the empty string, and [None], without raising,
    although construction rejects both; once the empty string is stored,
    every query string built ends with [api_token=] and nothing after. *)
Theorem setter_accepts_empty_token kwargs w tr :
  set_api_key (PStr "") w =
    (Ok tt, mkWorld (<["api_key" := PStr ""]> (self w)) (trace w))
  /\ set_api_key PNone w =
    (Ok tt, mkWorld (<["api_key" := PNone]> (self w)) (trace w))
  /\ fst (WTDApi (Some (PStr "")) tr) = Raise (APIKeyNotSet key_not_set_message)
  /\ fst (WTDApi (Some PNone) tr) = Raise (APIKeyNotSet key_not_set_message)
  /\ fst (WTDApi None tr) = Raise (APIKeyNotSet key_not_set_message)
  /\ has_token (snd (set_api_key (PStr "") w)) ""
  /\ exists s,
       _build_misc_string kwargs (snd (set_api_key (PStr "") w)) =
         (Ok s, snd (set_api_key (PStr "") w))
       /\ s = build_loop "?" kwargs +:+ "api_token="
       /\ ends_with "api_token=" s.
Proof.
  assert (Hempty : has_token (snd (set_api_key (PStr "") w)) "")
    by apply has_token_insert.
  repeat (split; [reflexivity|]). split; [exact Hempty|].
  exists (build_loop "?" kwargs +:+ "api_token=").
  split; [|split; [reflexivity|]].
  - rewrite (build_misc_string_ok _ _ _ Hempty). reflexivity.
  - exists (build_loop "?" kwargs). reflexivity.
Qed.

(** * Further properties of the client *)

(** ** The query string as a sequence of fragments *)

Lemma concat_all_app l1 l2 :
  concat_all (l1 ++ l2) = concat_all l1 +:+ concat_all l2.
Proof.
  induction l1 as [|x l1 IH]; [reflexivity|].
  cbn [app concat_all fold_right]. fold (concat_all (l1 ++ l2)).
  fold (concat_all l1). now rewrite IH, app_assoc_s.
Qed.

Lemma emitted_app l1 l2 : emitted (l1 ++ l2) = emitted l1 ++ emitted l2.
Proof. unfold emitted. now rewrite List.filter_app, List.map_app. Qed.

Lemma build_loop_emitted misc kwargs :
  build_loop misc kwargs = misc +:+ concat_all (emitted kwargs).
Proof.
  revert misc. induction kwargs as [|[k v] rest IH]; intros misc.
  - cbn. now rewrite app_empty_r.
  - cbn [build_loop]. unfold emitted. cbn [List.filter snd fst].
    destruct (eq_None v); cbn [negb].
    + apply IH.
    + rewrite IH. cbn [map concat_all fold_right fst snd].
      apply app_assoc_s.
Qed.

(** X1: the query string is [?], then the fragments of the arguments that
    are not [None] in the order they were passed, then the token parameter;
    building from two argument lists put end to end appends the fragments of
    the second after those of the first. *)
Theorem query_string_normal_form kwargs more w tok :
  has_token w tok ->
  _build_misc_string kwargs w =
    (Ok ("?" +:+ concat_all (emitted kwargs) +:+ "api_token=" +:+ tok), w)
  /\ _build_misc_string (kwargs ++ more) w =
    (Ok ("?" +:+ concat_all (emitted kwargs) +:+ concat_all (emitted more)
             +:+ "api_token=" +:+ tok), w)
  /\ length (emitted kwargs) <= length kwargs.
Proof.
  intros Htok. split; [|split].
  - rewrite (build_misc_string_ok _ _ _ Htok), build_loop_emitted.
    now rewrite app_assoc_s.
  - rewrite (build_misc_string_ok _ _ _ Htok), build_loop_emitted.
    rewrite emitted_app, concat_all_app. now rewrite !app_assoc_s.
  - unfold emitted. rewrite length_map. apply List.filter_length_le.
Qed.

Lemma query_string_normal_form_witness :
  _build_misc_string
    ([("symbol", PStr "AAPL"); ("sort", PNone)] ++ [("range", PInt 7)])
    (mkWorld (<["api_key" := PStr "K"]> ∅) []) =
  (Ok "?symbol=AAPL&range=7&api_token=K",
   mkWorld (<["api_key" := PStr "K"]> ∅) []).
Proof.
  exact (proj1 (proj2
    (query_string_normal_form [("symbol", PStr "AAPL"); ("sort", PNone)]
       [("range", PInt 7)] (mkWorld (<["api_key" := PStr "K"]> ∅) []) "K"
       eq_refl))).
Defined.

(** X2: the builder reads the instance and touches nothing.  It returns a
    string exactly when the stored token is a string; a token of another
    type gives [TypeError], a missing attribute [AttributeError]; in every
    case the instance and the log are left as they were. *)
Theorem build_misc_string_outcomes kwargs w :
  snd (_build_misc_string kwargs w) = w
  /\ fst (_build_misc_string kwargs w) =
     match self w !! "api_key" with
     | Some (Atom (AStr tok)) =>
         Ok (build_loop "?" kwargs +:+ "api_token=" +:+ tok)
     | Some _ => Raise TypeError
     | None => Raise (AttributeError "api_key")
     end.
Proof.
  unfold _build_misc_string, mbind, M_bind, bind, getattr.
  destruct (self w !! "api_key") as [[[| | |]|]|]; split; reflexivity.
Qed.

(** ** What a call does to the world *)

Lemma call_url_base c tok :
  exists base,
    subscript API (call_endpoint c) = Ok base
    /\ call_url c tok =
       base +:+ build_loop "?" (call_kwargs c) +:+ "api_token=" +:+ tok.
Proof.
  destruct (registry_has_endpoint c) as [base Hbase]. exists base.
  split; [exact Hbase|]. unfold call_url. now rewrite Hbase.
Qed.

(** A call first builds its URL, which needs a string token, and only then
    reaches the fetch-and-decode routine. *)
Lemma invoke_cases g l c w :
  invoke g l c w =
  match self w !! "api_key" with
  | Some (Atom (AStr tok)) => _get_api_response g l (call_url c tok) w
  | Some _ => (Raise TypeError, w)
  | None => (Raise (AttributeError "api_key"), w)
  end.
Proof.
  rewrite invoke_unfold.
  destruct (registry_has_endpoint c) as [base Hbase].
  cbv [call_url mbind M_bind bind make_url _build_misc_string lift getattr].
  rewrite Hbase.
  destruct (self w !! "api_key") as [[[|b|z|tok]|lst]|]; reflexivity.
Qed.

Lemma invoke_keeps_self g l c w : self (snd (invoke g l c w)) = self w.
Proof.
  rewrite invoke_cases.
  destruct (self w !! "api_key") as [[[|b|z|tok]|]|]; try reflexivity.
  rewrite get_api_response_run.
  destruct (g (call_url c tok)) as [resp|e]; [|reflexivity].
  destruct (Z.eqb (status_code resp) SUCCESS); reflexivity.
Qed.

(** X3: no operation writes to the instance, and each adds to the log
    nothing, or one GET, or one GET followed by one decode of the body the
    transport returned with status 200.  With a string token the GET is
    always made, to the call's URL. *)
Theorem invoke_footprint g l c w :
  self (snd (invoke g l c w)) = self w
  /\ (trace (snd (invoke g l c w)) = trace w
      \/ (exists url, trace (snd (invoke g l c w)) = trace w ++ [EvGet url])
      \/ (exists url resp,
            g url = Ok resp /\ status_code resp = SUCCESS
            /\ trace (snd (invoke g l c w)) =
               trace w ++ [EvGet url; EvLoads (text resp)]))
  /\ (forall tok, has_token w tok ->
        exists rest,
          trace (snd (invoke g l c w)) =
          trace w ++ EvGet (call_url c tok) :: rest).
Proof.
  split; [apply invoke_keeps_self|]. rewrite invoke_cases. split.
  - destruct (self w !! "api_key") as [[[|b|z|tok]|]|]; try (left; reflexivity).
    rewrite get_api_response_run.
    destruct (g (call_url c tok)) as [resp|e] eqn:Hg.
    + destruct (Z.eqb_spec (status_code resp) SUCCESS) as [Hs|Hs].
      * right; right. exists (call_url c tok), resp. auto.
      * right; left. eexists. reflexivity.
    + right; left. eexists. reflexivity.
  - intros tok Htok. unfold has_token in Htok. rewrite Htok.
    rewrite get_api_response_run.
    destruct (g (call_url c tok)) as [resp|e].
    + destruct (Z.eqb (status_code resp) SUCCESS); eexists; reflexivity.
    + eexists; reflexivity.
Qed.

Lemma invoke_footprint_witness :
  exists rest,
    trace (snd (invoke (mock_get (mkResponse 200 foo_body)) mock_loads
                  (CallForex (PStr "USD"))
                  (mkWorld (<["api_key" := PStr "K"]> ∅) []))) =
    trace (mkWorld (<["api_key" := PStr "K"]> ∅) [])
      ++ EvGet (call_url (CallForex (PStr "USD")) "K") :: rest.
Proof.
  apply (proj2 (proj2
    (invoke_footprint (mock_get (mkResponse 200 foo_body)) mock_loads
       (CallForex (PStr "USD")) (mkWorld (<["api_key" := PStr "K"]> ∅) [])))
    "K").
  reflexivity.
Defined.

(** The outcome of a call depends on the instance only, not on the log. *)
Lemma invoke_outcome_depends_on_self g l c w1 w2 :
  self w1 = self w2 -> fst (invoke g l c w1) = fst (invoke g l c w2).
Proof.
  intros Hself. rewrite !invoke_cases, Hself.
  destruct (self w2 !! "api_key") as [[[|b|z|tok]|]|]; try reflexivity.
  rewrite !get_api_response_run.
  destruct (g (call_url c tok)) as [resp|e]; [|reflexivity].
  destruct (Z.eqb (status_code resp) SUCCESS); reflexivity.
Qed.

(** X4: calls are independent of one another.  Whatever a first call did,
    whether it returned or raised, a second call on the same client has the
    outcome it would have had alone, and the client's attributes are still
    those it started with. *)
Theorem calls_are_independent g l c1 c2 w :
  fst (invoke g l c2 (snd (invoke g l c1 w))) = fst (invoke g l c2 w)
  /\ self (snd (invoke g l c2 (snd (invoke g l c1 w)))) = self w.
Proof.
  split.
  - apply invoke_outcome_depends_on_self, invoke_keeps_self.
  - now rewrite !invoke_keeps_self.
Qed.

(** X5: the constructor accepts any truthy value, so a token that is not a
    string is stored; every operation on such a client raises [TypeError]
    while building the URL, and no request is sent. *)
Theorem non_string_token_breaks_calls v tr g l c :
  truthy v = true ->
  is_str v = false ->
  WTDApi (Some v) tr = (Ok tt, mkWorld (<["api_key" := v]> ∅) tr)
  /\ invoke g l c (snd (WTDApi (Some v) tr)) =
     (Raise TypeError, snd (WTDApi (Some v) tr)).
Proof.
  intros Htruthy Hstr.
  assert (Hnew : WTDApi (Some v) tr =
                 (Ok tt, mkWorld (<["api_key" := v]> ∅) tr)).
  { unfold WTDApi, __init__. change (default PNone (Some v)) with v.
    rewrite Htruthy. reflexivity. }
  split; [exact Hnew|]. rewrite Hnew. cbn [snd].
  rewrite invoke_cases. cbn [self]. rewrite lookup_insert_eq.
  destruct v as [[|b|z|s]|]; try reflexivity; discriminate Hstr.
Qed.

Lemma non_string_token_breaks_calls_witness :
  WTDApi (Some (PInt 5)) [] =
    (Ok tt, mkWorld (<["api_key" := PInt 5]> ∅) [])
  /\ invoke (mock_get (mkResponse 200 foo_body)) mock_loads
       (CallStocks (PStr "AAPL") None None) (snd (WTDApi (Some (PInt 5)) [])) =
     (Raise TypeError, snd (WTDApi (Some (PInt 5)) [])).
Proof.
  apply (non_string_token_breaks_calls (PInt 5) []
           (mock_get (mkResponse 200 foo_body)) mock_loads
           (CallStocks (PStr "AAPL") None None)); reflexivity.
Defined.

(** X6: an exception raised by the transport reaches the caller unchanged;
    the GET was attempted, the body was never decoded. *)
Theorem transport_error_propagates g l c w tok e :
  has_token w tok ->
  g (call_url c tok) = Raise e ->
  invoke g l c w =
  (Raise e, mkWorld (self w) (trace w ++ [EvGet (call_url c tok)])).
Proof.
  intros Htok Hg. rewrite invoke_cases. unfold has_token in Htok.
  rewrite Htok, get_api_response_run, Hg. reflexivity.
Qed.

Lemma transport_error_propagates_witness :
  invoke (fun _ => Raise (Foreign "ConnectionError")) mock_loads
    (CallForex (PStr "USD")) (mkWorld (<["api_key" := PStr "K"]> ∅) []) =
  (Raise (Foreign "ConnectionError"),
   mkWorld (self (mkWorld (<["api_key" := PStr "K"]> ∅) []))
     (trace (mkWorld (<["api_key" := PStr "K"]> ∅) [])
        ++ [EvGet (call_url (CallForex (PStr "USD")) "K")])).
Proof.
  apply (transport_error_propagates (fun _ => Raise (Foreign "ConnectionError"))
           mock_loads (CallForex (PStr "USD"))
           (mkWorld (<["api_key" := PStr "K"]> ∅) []) "K"
           (Foreign "ConnectionError")); reflexivity.
Defined.

(** ** Values are written out as they are *)

Lemma build_misc_string_congr kwargs1 kwargs2 w :
  build_loop "?" kwargs1 = build_loop "?" kwargs2 ->
  _build_misc_string kwargs1 w = _build_misc_string kwargs2 w.
Proof. intros H. unfold _build_misc_string. now rewrite H. Qed.

(** X7: nothing is escaped.  A string value that contains [&name=value]
    yields the very query string that passing [name=value] as a separate
    argument yields, whatever the token and the other arguments. *)
Theorem separator_in_value_adds_argument pre key value key' value' post w :
  _build_misc_string
    (pre ++ (key, PStr (value +:+ "&" +:+ key' +:+ "=" +:+ value')) :: post) w =
  _build_misc_string
    (pre ++ (key, PStr value) :: (key', PStr value') :: post) w.
Proof.
  apply build_misc_string_congr.
  rewrite !build_loop_app. cbn [build_loop eq_None]. f_equal.
  unfold fragment. cbn [str_atom]. now rewrite !app_assoc_s.
Qed.

(** X8: a list with one element that is not [None] gives the query string
    the element alone gives; a list holding [None] still writes [None] out,
    where the bare [None] is skipped. *)
Theorem singleton_list_is_its_element pre key a post w :
  a <> ANone ->
  _build_misc_string (pre ++ (key, PList [a]) :: post) w =
  _build_misc_string (pre ++ (key, Atom a) :: post) w
  /\ build_loop "?" (pre ++ (key, PList [ANone]) :: post) =
     build_loop "?" pre +:+ (key +:+ "=None&") +:+ build_loop "" post
  /\ build_loop "?" (pre ++ (key, PNone) :: post) =
     build_loop "?" pre +:+ build_loop "" post.
Proof.
  intros Ha. split; [|split].
  - apply build_misc_string_congr. rewrite !build_loop_middle.
    destruct a as [|b|z|s]; [contradiction| | |]; reflexivity.
  - rewrite build_loop_middle. cbn [eq_None]. unfold fragment.
    cbn [map join str_atom]. now rewrite !app_assoc_s.
  - rewrite build_loop_middle. reflexivity.
Qed.

Lemma singleton_list_is_its_element_witness :
  _build_misc_string ([] ++ ("symbol", PList [AStr "AAPL"]) :: [])
    (mkWorld (<["api_key" := PStr "K"]> ∅) []) =
  _build_misc_string ([] ++ ("symbol", PStr "AAPL") :: [])
    (mkWorld (<["api_key" := PStr "K"]> ∅) []).
Proof.
  apply (singleton_list_is_its_element [] "symbol" (AStr "AAPL") []
           (mkWorld (<["api_key" := PStr "K"]> ∅) [])).
  discriminate.
Defined.

(** X9: joining a list made of two non-empty parts is joining each part and
    putting one separator between them; so a list value can be split at any
    point without changing what is written. *)
Theorem join_app sep (l1 l2 : list string) :
  l1 <> [] -> l2 <> [] ->
  join sep (l1 ++ l2) = join sep l1 +:+ sep +:+ join sep l2.
Proof.
  intros H1 H2. induction l1 as [|x [|y l1] IH]; [contradiction| |].
  - destruct l2 as [|z l2]; [contradiction|]. reflexivity.
  - change (join sep ((x :: y :: l1) ++ l2))
      with (x +:+ sep +:+ join sep ((y :: l1) ++ l2)).
    rewrite IH by discriminate.
    change (join sep (x :: y :: l1)) with (x +:+ sep +:+ join sep (y :: l1)).
    now rewrite !app_assoc_s.
Qed.

Lemma join_app_witness :
  join "," (["NYSE"; "NASDAQ"] ++ ["LSE"]) =
  join "," ["NYSE"; "NASDAQ"] +:+ "," +:+ join "," ["LSE"].
Proof. apply (join_app "," ["NYSE"; "NASDAQ"] ["LSE"]); discriminate. Defined.

(** ** Setting the token again *)

(** X11: of two successive calls of the setter only the last counts;
    setting the token to the value already stored changes nothing; and a
    client whose token was replaced by a non-empty string is the client
    constructed with that string. *)
Theorem set_api_key_last_wins v1 v2 old ch s w tok tr :
  has_token w tok ->
  truthy old = true ->
  (_ ← set_api_key v1; set_api_key v2) w = set_api_key v2 w
  /\ set_api_key (PStr tok) w = (Ok tt, w)
  /\ (_ ← __init__ (Some old); set_api_key (PStr (String ch s)))
       (mkWorld ∅ tr) =
     WTDApi (Some (PStr (String ch s))) tr.
Proof.
  intros Htok Hold. split; [|split].
  - cbv [mbind M_bind bind set_api_key setattr self trace].
    now rewrite insert_insert_eq.
  - unfold set_api_key, setattr. rewrite insert_id by exact Htok.
    now destruct w.
  - cbv [mbind M_bind bind WTDApi __init__ set_api_key].
    change (default PNone (Some old)) with old. rewrite Hold.
    cbv [negb setattr self trace].
    rewrite insert_insert_eq. reflexivity.
Qed.

Lemma set_api_key_last_wins_witness :
  (_ ← set_api_key (PStr "A"); set_api_key (PStr "B"))
    (mkWorld (<["api_key" := PStr "K"]> ∅) []) =
  set_api_key (PStr "B") (mkWorld (<["api_key" := PStr "K"]> ∅) []).
Proof.
  exact (proj1 (set_api_key_last_wins (PStr "A") (PStr "B") (PStr "K")
                  "x"%char "" (mkWorld (<["api_key" := PStr "K"]> ∅) []) "K" []
                  eq_refl eq_refl)).
Defined.

(** ** The endpoint registry *)

Lemma subscript_In d key url :
  NoDup (map fst d) -> (subscript d key = Ok url <-> In (key, url) d).
Proof.
  induction d as [|[k v] rest IH]; intros Hnd.
  - split; [discriminate | intros []].
  - cbn [subscript]. cbn [map fst] in Hnd.
    apply NoDup_cons in Hnd as [Hk Hrest].
    destruct (String.eqb_spec k key) as [->|Hne].
    + split.
      * intros [= ->]. now left.
      * intros [[= ->]|Hin]; [reflexivity|].
        exfalso. apply Hk. apply list_elem_of_In.
        apply (in_map fst) in Hin. exact Hin.
    + rewrite (IH Hrest). split.
      * intros Hin. now right.
      * intros [Heq|Hin]; [|exact Hin].
        exfalso. apply Hne. congruence.
Qed.

Lemma subscript_KeyError d key :
  subscript d key = Raise (KeyError key) <-> ~ In key (map fst d).
Proof.
  induction d as [|[k v] rest IH]; cbn [subscript map fst].
  - split; [intros _ [] | reflexivity].
  - destruct (String.eqb_spec k key) as [->|Hne].
    + split; [discriminate | intros H; exfalso; apply H; now left].
    + rewrite IH. split.
      * intros H [Hk|Hin]; [contradiction | exact (H Hin)].
      * intros H Hin. apply H. now right.
Qed.

Lemma API_keys_NoDup : NoDup (map fst API).
Proof.
  cbn. repeat (apply NoDup_cons; split;
               [rewrite list_elem_of_In; cbn; intuition discriminate|]).
  apply NoDup_nil. exact I.
Qed.

Lemma API_urls_NoDup : NoDup (map snd API).
Proof.
  cbn. repeat (apply NoDup_cons; split;
               [rewrite list_elem_of_In; cbn; intuition discriminate|]).
  apply NoDup_nil. exact I.
Qed.

Lemma NoDup_snd_inj (d : list (string * string)) k k' u :
  NoDup (map snd d) -> In (k, u) d -> In (k', u) d -> k = k'.
Proof.
  induction d as [|[a b] rest IH]; intros Hnd H1 H2; [destruct H1|].
  cbn [map snd] in Hnd. apply NoDup_cons in Hnd as [Hb Hrest].
  assert (Hout : forall x, In (x, b) rest -> False).
  { intros x Hx. apply Hb. apply list_elem_of_In.
    apply (in_map snd) in Hx. exact Hx. }
  destruct H1 as [E1|H1], H2 as [E2|H2].
  - congruence.
  - injection E1 as -> ->. exfalso. eapply Hout, H2.
  - injection E2 as -> ->. exfalso. eapply Hout, H1.
  - apply IH; assumption.
Qed.

(** X12: the registry answers exactly for its nine keys.  A key it holds
    gives the URL bound to it, any other key raises [KeyError] for that key;
    two different keys never give the same URL; every URL lies under the
    provider's [api/v1/] root; and the key of every operation is held. *)
Theorem registry_lookup key url :
  (subscript API key = Ok url <-> In (key, url) API)
  /\ (subscript API key = Raise (KeyError key) <-> ~ In key (map fst API))
  /\ (forall key', subscript API key = Ok url ->
                   subscript API key' = Ok url -> key = key')
  /\ (subscript API key = Ok url ->
      starts_with "https://www.worldtradingdata.com/api/v1/" url)
  /\ (forall c, In (call_endpoint c) (map fst API)).
Proof.
  split; [apply subscript_In, API_keys_NoDup|].
  split; [apply subscript_KeyError|]. split; [|split].
  - intros key' H1 H2.
    apply (subscript_In _ _ _ API_keys_NoDup) in H1, H2.
    exact (NoDup_snd_inj API key key' url API_urls_NoDup H1 H2).
  - intros H. apply (subscript_In _ _ _ API_keys_NoDup) in H.
    cbn in H.
    repeat (destruct H as [[= <- <-]|H]; [eexists; reflexivity|]).
    destruct H.
  - intros c. destruct c; cbn; tauto.
Qed.

Lemma registry_lookup_witness :
  subscript API "nasdaq" = Raise (KeyError "nasdaq")
  /\ starts_with "https://www.worldtradingdata.com/api/v1/"
       "https://www.worldtradingdata.com/api/v1/forex".
Proof.
  split.
  - apply (proj1 (proj2 (registry_lookup "nasdaq" ""))).
    cbn. intuition discriminate.
  - apply (proj1 (proj2 (proj2 (proj2
             (registry_lookup "forex"
                "https://www.worldtradingdata.com/api/v1/forex"))))).
    reflexivity.
Defined.

(** ** Defaults *)

(** X13: leaving an optional argument out is passing its declared default:
    a call and the same call with every optional argument written out
    ([None] everywhere, [1] and [7] for [interval] and [range] of
    [intraday]) hand the same keyword arguments to the builder and behave
    the same. *)
Theorem omitted_is_default g l c :
  invoke g l (fill_defaults c) = invoke g l c
  /\ call_kwargs (fill_defaults c) = call_kwargs c
  /\ Forall (fun p => is_Some (snd p)) (optional_args (fill_defaults c))
  /\ (forall s x y,
        invoke g l (CallIntraday s None None x y) =
        invoke g l (CallIntraday s (Some (PInt 1)) (Some (PInt 7)) x y)).
Proof.
  split; [|split; [|split]].
  - destruct c;
      repeat match goal with o : option pyval |- _ => destruct o end;
      reflexivity.
  - destruct c;
      repeat match goal with o : option pyval |- _ => destruct o end;
      reflexivity.
  - destruct c; cbn; repeat constructor; cbn; eauto.
  - intros s x y. reflexivity.
Qed.

(** ** URLs *)

(** A string is cut at its first question mark in one way only. *)
Lemma first_question_mark b1 b2 q1 q2 :
  mentions "?" b1 = false -> mentions "?" b2 = false ->
  b1 +:+ String "?" q1 = b2 +:+ String "?" q2 ->
  b1 = b2 /\ q1 = q2.
Proof.
  revert b2. induction b1 as [|x b1 IH]; intros [|y b2] H1 H2 Heq.
  - injection Heq as ->. split; reflexivity.
  - rewrite app_cons in Heq. injection Heq as <- _.
    cbn in H2. discriminate H2.
  - rewrite app_cons in Heq. injection Heq as -> _.
    cbn in H1. discriminate H1.
  - rewrite !app_cons in Heq. injection Heq as -> Heq.
    cbn [mentions] in H1, H2.
    apply orb_false_iff in H1 as [_ H1]. apply orb_false_iff in H2 as [_ H2].
    destruct (IH b2 H1 H2 Heq) as [-> ->]. split; reflexivity.
Qed.

Lemma API_urls_plain key url :
  subscript API key = Ok url -> mentions "?" url = false.
Proof.
  intros H. apply (subscript_In _ _ _ API_keys_NoDup) in H. cbn in H.
  repeat (destruct H as [[= <- <-]|H]; [reflexivity|]).
  destruct H.
Qed.

Lemma call_url_split c tok :
  exists base,
    subscript API (call_endpoint c) = Ok base
    /\ call_url c tok =
       base +:+ String "?"
         (build_loop "" (call_kwargs c) +:+ "api_token=" +:+ tok).
Proof.
  destruct (call_url_base c tok) as (base & Hbase & ->).
  exists base. split; [exact Hbase|].
  rewrite build_loop_acc. now rewrite app_assoc_s.
Qed.

(** X14: the URL a call fetches tells which operation was called: two calls
    that fetch the same URL use the same registry key, and their query
    strings are the same. *)
Theorem url_determines_endpoint c1 c2 tok1 tok2 :
  call_url c1 tok1 = call_url c2 tok2 ->
  call_endpoint c1 = call_endpoint c2
  /\ build_loop "?" (call_kwargs c1) +:+ "api_token=" +:+ tok1 =
     build_loop "?" (call_kwargs c2) +:+ "api_token=" +:+ tok2.
Proof.
  intros Heq.
  destruct (call_url_split c1 tok1) as (b1 & Hb1 & E1).
  destruct (call_url_split c2 tok2) as (b2 & Hb2 & E2).
  rewrite E1, E2 in Heq.
  apply first_question_mark in Heq as [-> Hq];
    [|exact (API_urls_plain _ _ Hb1) | exact (API_urls_plain _ _ Hb2)].
  split.
  - apply (subscript_In _ _ _ API_keys_NoDup) in Hb1, Hb2.
    exact (NoDup_snd_inj API _ _ b2 API_urls_NoDup Hb1 Hb2).
  - rewrite (build_loop_acc "?" (call_kwargs c1)).
    rewrite (build_loop_acc "?" (call_kwargs c2)).
    rewrite !app_assoc_s. change ("?" +:+ ?x) with (String "?" x).
    now rewrite Hq.
Qed.

Lemma url_determines_endpoint_witness :
  call_endpoint (CallStocks (PStr "AAPL") None None) =
  call_endpoint (CallStocks (PList [AStr "AAPL"]) (Some PNone) None)
  /\ build_loop "?" (call_kwargs (CallStocks (PStr "AAPL") None None))
       +:+ "api_token=" +:+ "K" =
     build_loop "?"
       (call_kwargs (CallStocks (PList [AStr "AAPL"]) (Some PNone) None))
       +:+ "api_token=" +:+ "K".
Proof.
  apply (url_determines_endpoint (CallStocks (PStr "AAPL") None None)
           (CallStocks (PList [AStr "AAPL"]) (Some PNone) None) "K" "K").
  reflexivity.
Defined.

(** X15: from construction to request.  A client constructed with a
    non-empty string sends, for any operation, one GET to the operation's
    base URL followed by the query string ending in [api_token=] and that
    string; the outcome is the transport's exception, or [APIAccessError]
    with the body, or what the decoder makes of the body. *)
Theorem construct_then_call ch s tr g l c :
  exists w base,
    WTDApi (Some (PStr (String ch s))) tr = (Ok tt, w)
    /\ subscript API (call_endpoint c) = Ok base
    /\ starts_with (base +:+ "?") (call_url c (String ch s))
    /\ ends_with ("api_token=" +:+ String ch s) (call_url c (String ch s))
    /\ invoke g l c w =
       match g (call_url c (String ch s)) with
       | Raise e =>
           (Raise e, mkWorld (self w) (tr ++ [EvGet (call_url c (String ch s))]))
       | Ok resp =>
           if Z.eqb (status_code resp) 200
           then (l (text resp),
                 mkWorld (self w)
                   (tr ++ [EvGet (call_url c (String ch s));
                           EvLoads (text resp)]))
           else (Raise (APIAccessError ("Error: " +:+ text resp)),
                 mkWorld (self w) (tr ++ [EvGet (call_url c (String ch s))]))
       end.
Proof.
  exists (mkWorld (<["api_key" := PStr (String ch s)]> ∅) tr).
  destruct (call_url_split c (String ch s)) as (base & Hbase & Hurl).
  exists base. split; [reflexivity|]. split; [exact Hbase|].
  split; [|split].
  - rewrite Hurl. eexists. rewrite app_assoc_s. reflexivity.
  - destruct (call_url_base c (String ch s)) as (base' & _ & ->).
    exists (base' +:+ build_loop "?" (call_kwargs c)).
    now rewrite !app_assoc_s.
  - rewrite invoke_cases. cbn [self]. rewrite lookup_insert_eq.
    rewrite get_api_response_run. reflexivity.
Qed.
